(** * Interview engine of the OES registration services (oes.interview)

    A shallow embedding of the interview service: the Ask step
    ([step_types/ask.py]), the HTTP routes ([server/routes.py]), the select
    field ([input/field_types/select.py]), the structuring of steps
    ([interview/serialization.py]) and the memoised structure functions of
    [serialization.py]. *)

From stdpp Require Import base gmap sets list strings pretty.
From Stdlib Require Import ZArith.

Set Warnings "-register-all".
Open Scope string_scope.

(** ** JSON-like values, as decoded by the orjson converter *)

Inductive json : Type :=
| JNull
| JBool (b : bool)
| JInt (z : Z)
| JStr (s : string)
| JArr (l : list json)
| JObj (kvs : list (string * json)).

(** Python truthiness of a decoded value. *)
Definition truthy (v : json) : bool :=
  match v with
  | JNull => false
  | JBool b => b
  | JInt z => negb (Z.eqb z 0)
  | JStr s => negb (String.eqb s "")
  | JArr l => negb (Nat.eqb (List.length l) 0)
  | JObj kvs => negb (Nat.eqb (List.length kvs) 0)
  end.

(** A Python dict with insertion order: [d[k]] and [d[k] = v]. *)
Fixpoint dict_get (d : list (string * json)) (k : string) : option json :=
  match d with
  | [] => None
  | (k', v) :: d' => if String.eqb k k' then Some v else dict_get d' k
  end.

Fixpoint dict_set (d : list (string * json)) (k : string) (v : json)
  : list (string * json) :=
  match d with
  | [] => [(k, v)]
  | (k', v') :: d' =>
      if String.eqb k k' then (k', v) :: d' else (k', v') :: dict_set d' k v
  end.

(** [k in d] for a mapping. *)
Definition dict_has (d : list (string * json)) (k : string) : bool :=
  existsb (fun kv => String.eqb k kv.1) d.

(** ** Exceptions and fallible results *)

Inductive Exc : Type :=
| InterviewError (msg : string)    (** interview.error.InterviewError *)
| ValidationError (msg : string)   (** input.question.ValidationError *)
| ValueError (msg : string)
| TypeError (msg : string)
| IterableValidationError (msg : string) (excs : list Exc)
    (** cattrs.errors.IterableValidationError: the errors of the elements *).

Inductive result (A : Type) : Type :=
| Ok (a : A)
| Err (e : Exc).
Arguments Ok {A} a.
Arguments Err {A} e.

Definition is_validation_error (e : Exc) : bool :=
  match e with ValidationError _ => true | _ => false end.

(** ** Conditions, steps, questions and the interview state *)

(** [oes.utils.logic.WhenCondition]: a boolean, an expression (kept as its
    source text), or a logical and/or of sub-conditions. *)
Inductive WhenCondition : Type :=
| WBool (b : bool)
| WExpr (src : string)
| WAnd (l : list WhenCondition)
| WOr (l : list WhenCondition).

Record AskStep : Type := mkAskStep {
  ask : string;
  ask_when : WhenCondition   (** [when: WhenCondition = True] *)
}.

(** Set and Exit steps: fields as in the spec (their modules are not part of
    the sources read here). *)
Record SetStep : Type := mkSetStep {
  set_ptr : string;
  set_value : json;
  set_when : WhenCondition
}.

Record ExitStep : Type := mkExitStep {
  exit_reason : string;
  exit_when : WhenCondition
}.

Inductive Step : Type :=
| StepAsk (s : AskStep)
| StepSet (s : SetStep)
| StepExit (s : ExitStep).

(** A question template: title, description and the ordered field pointers. *)
Record QuestionTemplate : Type := mkQuestionTemplate {
  qt_title : string;
  qt_description : option string;
  qt_fields : list string
}.

Record Question : Type := mkQuestion {
  q_title : string;
  q_description : option string;
  q_schema : json
}.

Global Instance QuestionTemplate_eq_dec : EqDecision QuestionTemplate.
Proof. intros [a b c] [a' b' c']. solve_decision. Defined.

(** [interview.state.InterviewState]: an immutable value, replaced by
    [state.update(...)] (attrs' [evolve]). *)
Record InterviewState : Type := mkInterviewState {
  target : option string;
  context : json;
  data : json;
  answered_question_ids : gset string;
  current_question : option QuestionTemplate;
  completed : bool
}.

(** Modelled from the spec: the constructor defaults of InterviewState
    ([interview/state.py]); a new state has no answered question, no
    pending question and is not completed. *)
Definition new_interview_state (tgt : option string) (ctx dat : json)
  : InterviewState :=
  mkInterviewState tgt ctx dat ∅ None false.

(** Modelled from the spec: [InterviewState.template_context], the merged
    evaluation context (context entries, overridden by data entries). *)
Definition template_context (s : InterviewState) : json :=
  let entries v := match v with JObj kvs => kvs | _ => [] end in
  JObj ((entries (data s) ++ entries (context s))%list).

(** [state.update(current_question=..., answered_question_ids=...)]. *)
Definition state_update (s : InterviewState) (cq : option QuestionTemplate)
  (answered : gset string) : InterviewState :=
  mkInterviewState (target s) (context s) (data s) answered cq (completed s).

(** [interview.interview.InterviewContext]. *)
Record InterviewContext : Type := mkInterviewContext {
  question_templates : gmap string QuestionTemplate;
  steps : list Step;
  state : InterviewState
}.

Definition with_state (c : InterviewContext) (s : InterviewState)
  : InterviewContext :=
  mkInterviewContext (question_templates c) (steps c) s.

(** Step content: [AskResult] (a question schema) or [ExitResult]. *)
Inductive Content : Type :=
| AskResult (schema : json)
| ExitResult (reason : string).

(** [interview.update.UpdateResult]: a context and optional content. *)
Record UpdateResult : Type := mkUpdateResult {
  ur_context : InterviewContext;
  ur_content : option Content
}.

(** ** The Ask step ([AskStep.__call__]) *)

Section Ask.
(** [QuestionTemplate.get_question]: rendering a template against the
    template context. *)
Variable get_question : QuestionTemplate -> json -> Question.

Definition ask_call (a : AskStep) (ctx : InterviewContext)
  : result UpdateResult :=
  if decide (ask a ∈ answered_question_ids (state ctx)) then
    Ok (mkUpdateResult ctx None)
  else
    match question_templates ctx !! ask a with
    | None => Err (InterviewError ("No question with ID " +:+ ask a))
    | Some qt =>
        let question := get_question qt (template_context (state ctx)) in
        let st := state_update (state ctx) (Some qt)
                    (answered_question_ids (state ctx) ∪ {[ ask a ]}) in
        Ok (mkUpdateResult (with_state ctx st)
              (Some (AskResult (q_schema question))))
    end.
End Ask.

(** ** Storage and HTTP routes ([server/routes.py]) *)

(** Modelled from the spec: [oes.interview.storage.StorageService], an
    opaque key/value store: [put(context) -> key] stores the context under a
    fresh key, [get(key) -> context | absent]. Keys are drawn from a counter
    here (the real keys are opaque random strings). *)
Definition Storage : Type := list InterviewContext.

Definition storage_put (st : Storage) (c : InterviewContext) : nat * Storage :=
  (List.length st, (st ++ [c])%list).

Definition storage_get (st : Storage) (key : nat) : option InterviewContext :=
  st !! key.

Record Interview : Type := mkInterview {
  questions : gmap string QuestionTemplate;
  interview_steps : list Step
}.

Record InterviewStartRequest : Type := mkInterviewStartRequest {
  req_target : option string;
  req_context : json;
  req_data : json
}.

Record InterviewUpdateRequest : Type := mkInterviewUpdateRequest {
  req_state : nat;
  req_responses : option (list (string * json))
}.

Record InterviewResponse : Type := mkInterviewResponse {
  resp_state : nat;
  resp_completed : bool;
  resp_content : option Content
}.

(** What a route handler produces: a response body, an HTTP error raised on
    purpose ([raise_not_found], [BadRequest] with status 422), or an
    exception that escapes the handler (a server-side failure). *)
Inductive RouteOutcome : Type :=
| RResponse (r : InterviewResponse)
| RHttpError (status : nat) (msg : string)
| RRaised (e : Exc).

(** [make_interview_context(questions, steps, state)]. *)
Definition make_interview_context (qs : gmap string QuestionTemplate)
  (ss : list Step) (s : InterviewState) : InterviewContext :=
  mkInterviewContext qs ss s.

(** [start_interview]. *)
Definition start_interview (interviews : gmap string Interview)
  (interview_id : string) (req : InterviewStartRequest) (st : Storage)
  : RouteOutcome * Storage :=
  match interviews !! interview_id with
  | None => (RHttpError 404 "Not Found", st)
  | Some interview =>
      let s := new_interview_state (req_target req) (req_context req)
                 (req_data req) in
      let c := make_interview_context (questions interview)
                 (interview_steps interview) s in
      let '(key, st') := storage_put st c in
      (RResponse (mkInterviewResponse key (completed s) None), st')
  end.

(** [update_interview_route]; [update_interview] (the update algorithm of
    [interview/update.py]) is a parameter: any function from a stored
    context and optional responses to a new context and content, or an
    exception. *)
Definition update_interview_route
  (update_interview : InterviewContext -> option (list (string * json)) ->
                      result (InterviewContext * option Content))
  (req : InterviewUpdateRequest) (st : Storage) : RouteOutcome * Storage :=
  match storage_get st (req_state req) with
  | None => (RHttpError 404 "Not Found", st)
  | Some c =>
      match update_interview c (req_responses req) with
      | Err (ValidationError _) => (RHttpError 422 "Invalid input", st)
      | Err e => (RRaised e, st)
      | Ok (result_ctx, content) =>
          let '(key, st') := storage_put st result_ctx in
          (RResponse (mkInterviewResponse key
                        (completed (state result_ctx)) content), st')
      end
  end.

(** ** The select field ([input/field_types/select.py]) *)

(** [SelectFieldOption]: an optional conditional default (an expression,
    kept as its source text) and a static default flag. *)
Record SelectFieldOption : Type := mkSelectFieldOption {
  default_expr : option string;
  default : bool
}.

Record SelectFieldTemplate : Type := mkSelectFieldTemplate {
  component : string;          (** default "dropdown" *)
  options : list SelectFieldOption;
  sf_min : Z;                  (** [min: int = 0] *)
  sf_max : Z;                  (** [max: int = 1] *)
  autocomplete : option string
}.

Definition multi (t : SelectFieldTemplate) : bool := Z.ltb 1 (sf_max t).

Definition is_optional (t : SelectFieldTemplate) : bool := Z.eqb (sf_min t) 0.

Definition py_str_int (z : Z) : string := pretty z.

(** A validator: a function on the decoded answer that returns it or
    raises. *)
Definition Validator : Type := json -> result json.

(** The number of code points of a UTF-8 encoded string: its bytes that
    are not continuation bytes ([0x80]-[0xBF]). *)
Definition utf8_length (s : string) : nat :=
  List.length (List.filter
    (fun c => negb (andb (Nat.leb 128 (Ascii.nat_of_ascii c))
                         (Nat.ltb (Ascii.nat_of_ascii c) 192)))
    (String.list_ascii_of_string s)).

(** Python's [len]. *)
Definition py_len (v : json) : result Z :=
  match v with
  | JArr l => Ok (Z.of_nat (List.length l))
  | JStr s => Ok (Z.of_nat (utf8_length s))
  | JObj kvs => Ok (Z.of_nat (List.length kvs))
  | JNull => Err (TypeError "object of type 'NoneType' has no len()")
  | JBool _ => Err (TypeError "object of type 'bool' has no len()")
  | JInt _ => Err (TypeError "object of type 'int' has no len()")
  end.

(** [SelectFieldTemplate._validate_size]. *)
Definition validate_size (t : SelectFieldTemplate) (values : json)
  : result json :=
  match py_len values with
  | Err e => Err e
  | Ok n =>
      if Z.ltb n (sf_min t) then
        Err (ValueError ("Choose at least " +:+ py_str_int (sf_min t)))
      else if Z.ltb (sf_max t) n then
        Err (ValueError ("Choose at most " +:+ py_str_int (sf_max t)))
      else Ok values
  end.

Section SelectValidators.
(** [super().get_validators(context)]: the validators of the base class
    [SelectFieldTemplateBase] ([input/field_template.py]), whose code is not
    part of the sources. *)
Variable base_get_validators : SelectFieldTemplate -> list Validator.

(** [SelectFieldTemplate.get_validators]: the base validators, then the size
    validator for a multi field. *)
Definition select_get_validators (t : SelectFieldTemplate) : list Validator :=
  (base_get_validators t ++ (if multi t then [validate_size t] else []))%list.
End SelectValidators.

(** Modelled from the spec: a decoded answer goes through the field's
    validators in order; a [ValueError] raised by one of them becomes a
    [ValidationError] of the question ([input/question.py]). *)
Fixpoint run_validators (vs : list Validator) (v : json) : result json :=
  match vs with
  | [] => Ok v
  | f :: vs' =>
      match f v with
      | Ok v' => run_validators vs' v'
      | Err (ValueError m) => Err (ValidationError m)
      | Err e => Err e
      end
  end.

Section SelectSchema.
(** [Expression.evaluate]: evaluation of an expression's source against the
    template context. *)
Variable evaluate : string -> json -> json.

(** [SelectFieldTemplate._get_default]. *)
Definition get_default (opt : SelectFieldOption) (ctx : json) : json :=
  match default_expr opt with
  | Some e => evaluate e ctx
  | None => JBool (default opt)
  end.

(** [[opt_id for opt_id, opt in options.items() if self._get_default(...)]];
    [opts] is the ordered mapping [self.get_options(context)]. *)
Definition select_defaults (opts : list (string * SelectFieldOption))
  (ctx : json) : list string :=
  map fst (filter (fun io => truthy (get_default io.2 ctx) = true) opts).

(** [SelectFieldTemplate.get_schema]; [base] is [super().get_schema(...)]. *)
Definition select_get_schema (t : SelectFieldTemplate)
  (base : list (string * json)) (opts : list (string * SelectFieldOption))
  (ctx : json) : list (string * json) :=
  let defaults := select_defaults opts ctx in
  let s1 :=
    if multi t then
      let s := dict_set (dict_set base "minItems" (JInt (sf_min t)))
                 "maxItems" (JInt (sf_max t)) in
      match defaults with
      | [] => s
      | _ => dict_set s "default" (JArr (map JStr defaults))
      end
    else
      match defaults with
      | [] => base
      | d :: _ => dict_set base "default" (JStr d)
      end in
  let s2 :=
    match autocomplete t with
    | Some a => if String.eqb a "" then s1 else dict_set s1 "x-autoComplete" (JStr a)
    | None => s1
    end in
  dict_set s2 "x-component" (JStr (component t)).
End SelectSchema.

(** ** Structuring steps ([interview/serialization.py]) *)

(** [repr] of a decoded value, for error messages. *)
Fixpoint py_repr (v : json) : string :=
  match v with
  | JNull => "None"
  | JBool true => "True"
  | JBool false => "False"
  | JInt z => pretty z
  | JStr s => "'" +:+ s +:+ "'"
  | JArr l =>
      "[" +:+ String.concat ", " (map py_repr l) +:+ "]"
  | JObj kvs =>
      "{" +:+ String.concat ", "
        (map (fun kv => "'" +:+ kv.1 +:+ "': " +:+ py_repr kv.2) kvs) +:+ "}"
  end.

(** Python's [str] of a decoded value: a string is itself, anything else is
    shown as its [repr]. *)
Definition py_str (v : json) : string :=
  match v with
  | JStr s => s
  | _ => py_repr v
  end.

Section StepStructure.
(** [converter.structure(v, AskStep)] and its siblings: the per-class
    structure functions generated by cattrs. *)
Variable structure_ask : json -> result AskStep.
Variable structure_exit : json -> result ExitStep.
Variable structure_set : json -> result SetStep.

Definition map_result {A B} (f : A -> B) (r : result A) : result B :=
  match r with Ok a => Ok (f a) | Err e => Err e end.

(** The [structure] function returned by [make_step_structure_fn]. *)
Definition structure_step (v : json) : result Step :=
  let invalid := Err (ValueError ("Invalid step: " +:+ py_str v)) in
  match v with
  | JObj kvs =>
      if dict_has kvs "ask" then map_result StepAsk (structure_ask v)
      else if dict_has kvs "exit" then map_result StepExit (structure_exit v)
      else if dict_has kvs "set" then map_result StepSet (structure_set v)
      else invalid
  | _ => invalid
  end.
End StepStructure.

(** ** Memoised structure functions ([serialization.configure_converter]) *)

(** [functools.lru_cache(maxsize=...)] wrapped around a pure structure
    function [f]. The cache is a list of entries, most recently used first;
    the key is the tuple of arguments of the call. *)
Section LruCache.
Context {K V : Type} `{EqDecision K}.
Variable f : K -> V.
Variable maxsize : nat.

Fixpoint cache_lookup (c : list (K * V)) (k : K) : option V :=
  match c with
  | [] => None
  | (k', v) :: c' => if decide (k = k') then Some v else cache_lookup c' k
  end.

Definition cache_remove (c : list (K * V)) (k : K) : list (K * V) :=
  filter (fun kv => kv.1 <> k) c.

(** One call of the cached function: returns the value, whether the
    wrapped function ran (a miss), and the new cache. A hit moves the entry
    to the front; a miss computes [f k], puts it in front and drops the
    least recently used entry when the cache is over [maxsize]. *)
Definition lru_call (c : list (K * V)) (k : K) : V * bool * list (K * V) :=
  match cache_lookup c k with
  | Some v => (v, false, (k, v) :: cache_remove c k)
  | None => let v := f k in (v, true, take maxsize ((k, v) :: c))
  end.

(** A sequence of calls from a given cache: the results and the final
    cache. *)
Fixpoint lru_run (c : list (K * V)) (ks : list K) : list V * list (K * V) :=
  match ks with
  | [] => ([], c)
  | k :: ks' =>
      let '(v, _, c') := lru_call c k in
      let '(vs, c'') := lru_run c' ks' in
      (v :: vs, c'')
  end.
End LruCache.

(** The key of [tmpl_structure_fn(v, t)] and [expr_structure_fn(v, t)]:
    the source text and the requested type; [value_pointer_structure_fn(v)]
    is keyed by the source text alone. *)
Inductive StructType : Type :=
| TTemplate
| TOptTemplate   (** [Union[str, Template, None]] *)
| TExpression
| TValueOrEvaluable.

Global Instance StructType_eq_dec : EqDecision StructType.
Proof. solve_decision. Defined.

Definition lru_maxsize : nat := 1024.

(** Equality of decoded values (Python's [==] on JSON-like data), needed
    to use them as cache keys. *)
Fixpoint json_eq_dec (x y : json) {struct x} : {x = y} + {x <> y}.
Proof.
  refine (match x, y with
  | JNull, JNull => left eq_refl
  | JBool a, JBool b =>
      match bool_dec a b with left e => left _ | right n => right _ end
  | JInt a, JInt b =>
      match Z.eq_dec a b with left e => left _ | right n => right _ end
  | JStr a, JStr b =>
      match String.string_dec a b with left e => left _ | right n => right _ end
  | JArr a, JArr b =>
      match List.list_eq_dec json_eq_dec a b with
      | left e => left _ | right n => right _ end
  | JObj a, JObj b =>
      match List.list_eq_dec (fun p q : string * json =>
        match p, q with
        | (k, v), (k', v') =>
            match String.string_dec k k' with
            | left e1 =>
                match json_eq_dec v v' with
                | left e2 => left _ | right n2 => right _ end
            | right n1 => right _
            end
        end) a b with
      | left e => left _ | right n => right _ end
  | _, _ => right _
  end); congruence.
Defined.

Global Instance json_eq_decision : EqDecision json := json_eq_dec.

(** The dictionary behind [functools.lru_cache] finds an entry by hash and
    [==] and keeps the argument it was first stored with: [key] gives the
    class of Python-equal arguments. A hit returns the value cached for the
    stored argument and moves the entry to the front; a miss runs [f] and
    puts the new entry in front, dropping the least recently used one
    beyond [maxsize]. *)
Section PyLruCache.
Context {A K V : Type} `{EqDecision K}.
Variable key : A -> K.
Variable f : A -> V.
Variable maxsize : nat.

Fixpoint pcache_lookup (c : list (A * V)) (k : K) : option (A * V) :=
  match c with
  | [] => None
  | (a, v) :: c' => if decide (key a = k) then Some (a, v) else pcache_lookup c' k
  end.

Definition pcache_remove (c : list (A * V)) (k : K) : list (A * V) :=
  filter (fun av => key av.1 <> k) c.

Definition plru_call (c : list (A * V)) (a : A) : V * list (A * V) :=
  match pcache_lookup c (key a) with
  | Some (a0, v) => (v, (a0, v) :: pcache_remove c (key a))
  | None => let v := f a in (v, take maxsize ((a, v) :: c))
  end.
End PyLruCache.

(** The hash key of a decoded value: [None] for the unhashable [list] and
    [dict]; [True] and [False] hash and compare equal to [1] and [0]. *)
Definition py_hash_key (v : json) : option json :=
  match v with
  | JArr _ | JObj _ => None
  | JBool b => Some (JInt (if b then 1 else 0))
  | _ => Some v
  end.

Definition py_type_name (v : json) : string :=
  match v with
  | JNull => "NoneType"
  | JBool _ => "bool"
  | JInt _ => "int"
  | JStr _ => "str"
  | JArr _ => "list"
  | JObj _ => "dict"
  end.

(** The key of a call [fn(v, t)] of a cached structure function. *)
Definition py_call_key (kt : json * StructType) : option json * StructType :=
  (py_hash_key kt.1, kt.2).

(** The structure hooks registered in [configure_converter] around the
    cached template and expression structure functions. The wrapped
    [make_template_structure_fn(env)] and [make_expression_structure_fn(env)]
    are parameters; they are taken not to raise. *)
Section ConverterHooks.
Context {T E : Type}.
Variable tmpl_structure : json * StructType -> T.
Variable expr_structure : json * StructType -> E.

(** A call [fn(v, t)] of a structure function wrapped in
    [functools.lru_cache(maxsize=1024)]: building the key of an unhashable
    argument raises [TypeError] before the cache is touched. *)
Definition cached_structure {R : Type} (fn : json * StructType -> R)
  (c : list ((json * StructType) * R)) (v : json) (t : StructType)
  : result R * list ((json * StructType) * R) :=
  match py_hash_key v with
  | None => (Err (TypeError ("unhashable type: '" +:+ py_type_name v +:+ "'")), c)
  | Some _ =>
      let '(x, c') := plru_call py_call_key fn lru_maxsize c (v, t) in (Ok x, c')
  end.

(** [lambda v, t: tmpl_structure_fn(v, t) if v is not None else None],
    registered for [Union[str, Template, None]]. *)
Definition opt_template_hook (c : list ((json * StructType) * T)) (v : json)
  : result (option T) * list ((json * StructType) * T) :=
  match v with
  | JNull => (Ok None, c)
  | _ =>
      let '(r, c') := cached_structure tmpl_structure c v TOptTemplate in
      (map_result Some r, c')
  end.

(** An [Expression] or a [Sequence[Expression]]. *)
Inductive ExprOrSeq : Type :=
| ExprOne (e : E)
| ExprSeq (l : list E).

(** The elements of a list structured one by one through the cached
    [Expression] hook, each outcome kept. *)
Fixpoint structure_expr_elems (c : list ((json * StructType) * E)) (l : list json)
  : list (result E) * list ((json * StructType) * E) :=
  match l with
  | [] => ([], c)
  | x :: l' =>
      let '(r, c1) := cached_structure expr_structure c x TExpression in
      let '(rs, c2) := structure_expr_elems c1 l' in
      (r :: rs, c2)
  end.

(** The structured elements and the errors, each in order. *)
Fixpoint split_results (rs : list (result E)) : list E * list Exc :=
  match rs with
  | [] => ([], [])
  | r :: rs' =>
      let '(xs, es) := split_results rs' in
      match r with
      | Ok x => (x :: xs, es)
      | Err e => (xs, e :: es)
      end
  end.

(** The hook for [Union[Expression, Sequence[Expression]]]: a sequence that
    is not a string goes to [converter.structure(v, Sequence[Expression])],
    anything else to [converter.structure(v, Expression)]. The converter of
    [cattrs.preconf.orjson.make_converter] validates in detail: a list is
    structured element by element, every element is tried, and the errors
    are raised together in an [IterableValidationError] (the notes cattrs
    attaches to them are not modelled). *)
Definition expr_or_seq_hook (c : list ((json * StructType) * E)) (v : json)
  : result ExprOrSeq * list ((json * StructType) * E) :=
  match v with
  | JArr l =>
      let '(rs, c') := structure_expr_elems c l in
      match split_results rs with
      | (xs, []) => (Ok (ExprSeq xs), c')
      | (_, es) =>
          (Err (IterableValidationError
                  "While structuring collections.abc.Sequence[oes.utils.template.Expression]"
                  es), c')
      end
  | _ =>
      let '(r, c') := cached_structure expr_structure c v TExpression in
      (map_result ExprOne r, c')
  end.
End ConverterHooks.

(** * Properties *)

(** A concrete script used by the examples below: one question [q1]. *)
Definition qt_q1 : QuestionTemplate := mkQuestionTemplate "Name" None ["name"].

Definition render_plain (qt : QuestionTemplate) (_ : json) : Question :=
  mkQuestion (qt_title qt) (qt_description qt)
    (JObj [("type", JStr "object"); ("title", JStr (qt_title qt))]).

Definition ctx_start : InterviewContext :=
  mkInterviewContext {[ "q1" := qt_q1 ]}
    [StepAsk (mkAskStep "q1" (WBool true))]
    (new_interview_state None (JObj []) (JObj [])).

Example ask_q1_content :
  ask_call render_plain (mkAskStep "q1" (WBool true)) ctx_start =
  Ok (mkUpdateResult
        (with_state ctx_start
           (state_update (state ctx_start) (Some qt_q1) {[ "q1" ]}))
        (Some (AskResult (JObj [("type", JStr "object"); ("title", JStr "Name")])))).
Proof.
  unfold ask_call. cbn.
  rewrite decide_False by set_solver.
  by rewrite (left_id_L ∅ union).
Qed.

(** The two branches of the Ask step that return a result. *)
Lemma ask_call_answered gq a ctx :
  ask a ∈ answered_question_ids (state ctx) ->
  ask_call gq a ctx = Ok (mkUpdateResult ctx None).
Proof. intros H. unfold ask_call. by rewrite decide_True. Qed.

Lemma ask_call_asks gq a ctx qt :
  ask a ∉ answered_question_ids (state ctx) ->
  question_templates ctx !! ask a = Some qt ->
  ask_call gq a ctx =
  Ok (mkUpdateResult
        (with_state ctx
           (state_update (state ctx) (Some qt)
              (answered_question_ids (state ctx) ∪ {[ ask a ]})))
        (Some (AskResult (q_schema (gq qt (template_context (state ctx))))))).
Proof. intros H Hq. unfold ask_call. rewrite decide_False by done. by rewrite Hq. Qed.

(** ** C1 *)

(** C1 (counterexample): asking [q1] on a fresh state records [q1] as the
    pending question and, in the same transition, adds [q1] to
    [answered_question_ids]: the id is added when the question is asked,
    and the pending question's id is already answered. *)
Lemma C1_counterexample :
  exists r,
    ask_call render_plain (mkAskStep "q1" (WBool true)) ctx_start = Ok r /\
    ("q1" ∉ answered_question_ids (state ctx_start)) /\
    current_question (state (ur_context r)) = Some qt_q1 /\
    "q1" ∈ answered_question_ids (state (ur_context r)).
Proof.
  eexists. split; [apply (ask_call_asks _ _ _ qt_q1); cbn; [set_solver | reflexivity]|].
  cbn. set_solver.
Qed.

(** C1 (amended): an Ask step for an unanswered question with a known
    template records the template as [current_question] and adds the
    question id to [answered_question_ids] at the moment it asks, returning
    the rendered question; for an answered id it changes nothing. *)
Theorem C1_ask_records_answered_on_ask gq a ctx qt :
  ask a ∉ answered_question_ids (state ctx) ->
  question_templates ctx !! ask a = Some qt ->
  exists r,
    ask_call gq a ctx = Ok r /\
    current_question (state (ur_context r)) = Some qt /\
    answered_question_ids (state (ur_context r)) =
      answered_question_ids (state ctx) ∪ {[ ask a ]} /\
    ask a ∈ answered_question_ids (state (ur_context r)) /\
    ur_content r = Some (AskResult (q_schema (gq qt (template_context (state ctx))))).
Proof.
  intros H Hq. eexists. split; [by apply ask_call_asks|].
  cbn. repeat split; set_solver.
Qed.

Lemma C1_ask_records_answered_on_ask_witness :
  ("q1" ∉ answered_question_ids (state ctx_start)) /\
  question_templates ctx_start !! "q1" = Some qt_q1 /\
  exists r,
    ask_call render_plain (mkAskStep "q1" (WBool true)) ctx_start = Ok r /\
    current_question (state (ur_context r)) = Some qt_q1 /\
    answered_question_ids (state (ur_context r)) =
      answered_question_ids (state ctx_start) ∪ {[ "q1" ]} /\
    "q1" ∈ answered_question_ids (state (ur_context r)) /\
    ur_content r = Some (AskResult (q_schema
      (render_plain qt_q1 (template_context (state ctx_start))))).
Proof.
  split; [cbn; set_solver|]. split; [reflexivity|].
  apply (C1_ask_records_answered_on_ask render_plain (mkAskStep "q1" (WBool true))
           ctx_start qt_q1); cbn; [set_solver | reflexivity].
Defined.

(** ** C2 *)

(** C2 (counterexample): an Ask step whose condition is [False], invoked on
    the fresh state, is not skipped: it returns the question as content and
    changes the state. *)
Lemma C2_counterexample :
  exists r,
    ask_call render_plain (mkAskStep "q1" (WBool false)) ctx_start = Ok r /\
    ur_content r <> None /\
    state (ur_context r) <> state ctx_start.
Proof.
  eexists. split; [apply (ask_call_asks _ _ _ qt_q1); cbn; [set_solver | reflexivity]|].
  cbn. split; [discriminate|]. intros Heq. inversion Heq.
Qed.

(** C2 (amended): invoking an Ask step does not evaluate its [when]
    condition: the result is the same whatever the condition is. *)
Theorem C2_ask_ignores_when gq q w1 w2 ctx :
  ask_call gq (mkAskStep q w1) ctx = ask_call gq (mkAskStep q w2) ctx.
Proof. reflexivity. Qed.

(** ** C3 *)

(** C3: an Ask step whose question id is already answered returns the
    context unchanged with no content, whatever its condition. *)
Theorem C3_ask_answered_noop gq q w ctx :
  q ∈ answered_question_ids (state ctx) ->
  ask_call gq (mkAskStep q w) ctx = Ok (mkUpdateResult ctx None).
Proof. intros H. by apply ask_call_answered. Qed.

Definition ctx_answered : InterviewContext :=
  with_state ctx_start (state_update (state ctx_start) None {[ "q1" ]}).

Lemma C3_ask_answered_noop_witness :
  "q1" ∈ answered_question_ids (state ctx_answered) /\
  ask_call render_plain (mkAskStep "q1" (WExpr "age >= 18")) ctx_answered =
    Ok (mkUpdateResult ctx_answered None).
Proof.
  split; [cbn; set_solver|].
  apply C3_ask_answered_noop. cbn. set_solver.
Defined.

(** ** C4 *)

(** C4: an Ask step for an unanswered id with no question template raises an
    [InterviewError] (not a [ValidationError]); an update call failing with
    it escapes the update route as a server-side failure, not as the 422
    answer reserved for validation errors, and stores nothing. *)
Theorem C4_unknown_question_fatal gq a ctx :
  ask a ∉ answered_question_ids (state ctx) ->
  question_templates ctx !! ask a = None ->
  let e := InterviewError ("No question with ID " +:+ ask a) in
  ask_call gq a ctx = Err e /\
  is_validation_error e = false /\
  forall upd req st c,
    storage_get st (req_state req) = Some c ->
    upd c (req_responses req) = Err e ->
    update_interview_route upd req st = (RRaised e, st).
Proof.
  intros H Hq e. split; [|split; [reflexivity|]].
  - unfold ask_call. rewrite decide_False by done. by rewrite Hq.
  - intros upd req st c Hg Hu. unfold update_interview_route.
    by rewrite Hg, Hu.
Qed.

Lemma C4_unknown_question_fatal_witness :
  ("q2" ∉ answered_question_ids (state ctx_start)) /\
  question_templates ctx_start !! "q2" = None /\
  ask_call render_plain (mkAskStep "q2" (WBool true)) ctx_start =
    Err (InterviewError ("No question with ID " +:+ "q2")).
Proof.
  split; [cbn; set_solver|]. split; [reflexivity|].
  apply (C4_unknown_question_fatal render_plain (mkAskStep "q2" (WBool true))
           ctx_start); cbn; [set_solver | reflexivity].
Defined.

(** ** Select fields *)

Definition select_1_1 : SelectFieldTemplate :=
  mkSelectFieldTemplate "dropdown" [] 1 1 None.

Definition select_1_3 : SelectFieldTemplate :=
  mkSelectFieldTemplate "checkbox" [] 1 3 None.

(** The outcome of the size check on [n] choices, as seen by the caller. *)
Definition size_outcome (t : SelectFieldTemplate) (l : list json) : result json :=
  let n := Z.of_nat (List.length l) in
  if Z.ltb n (sf_min t) then
    Err (ValidationError ("Choose at least " +:+ py_str_int (sf_min t)))
  else if Z.ltb (sf_max t) n then
    Err (ValidationError ("Choose at most " +:+ py_str_int (sf_max t)))
  else Ok (JArr l).

(** ** C6 *)

Lemma dict_get_set_eq d k v : dict_get (dict_set d k v) k = Some v.
Proof.
  induction d as [|[k' v'] d IH]; cbn; [by rewrite String.eqb_refl|].
  destruct (String.eqb_spec k k') as [->|Hne]; cbn.
  - by rewrite String.eqb_refl.
  - by destruct (String.eqb_spec k k').
Qed.

Lemma dict_get_set_ne d k k' v :
  k <> k' -> dict_get (dict_set d k' v) k = dict_get d k.
Proof.
  intros Hne. induction d as [|[k'' v''] d IH]; cbn.
  - by destruct (String.eqb_spec k k').
  - destruct (String.eqb_spec k' k'') as [->|Hne']; cbn.
    + by destruct (String.eqb_spec k k'').
    + by rewrite IH.
Qed.

Lemma select_defaults_in_order evaluate opts ctx :
  select_defaults evaluate opts ctx `sublist_of` map fst opts.
Proof.
  unfold select_defaults. induction opts as [|io opts IH]; cbn; [constructor|].
  case_decide; cbn.
  - by apply sublist_skip.
  - by apply sublist_cons.
Qed.

(** C6: the defaults are the ids of the options whose default (conditional
    expression, else static flag) is truthy, in declaration order; when there
    are some, the schema's [default] is the first of them for a non-multi
    field and the list of all of them for a multi field (with no default
    option the [default] entry of the base schema is left as it is). *)
Theorem C6_select_schema_default evaluate (t : SelectFieldTemplate)
    (base : list (string * json)) (opts : list (string * SelectFieldOption))
    (ctx : json) :
  let ds := select_defaults evaluate opts ctx in
  ds = map fst (filter (fun io => truthy (get_default evaluate io.2 ctx) = true) opts) /\
  ds `sublist_of` map fst opts /\
  dict_get (select_get_schema evaluate t base opts ctx) "default" =
    match ds with
    | [] => dict_get base "default"
    | d :: _ => Some (if multi t then JArr (map JStr ds) else JStr d)
    end.
Proof.
  cbv zeta. split; [reflexivity|]. split; [apply select_defaults_in_order|].
  unfold select_get_schema. cbv zeta.
  rewrite dict_get_set_ne by discriminate.
  assert (Hs1 : forall s, dict_get (match autocomplete t with
      | Some a => if String.eqb a "" then s else dict_set s "x-autoComplete" (JStr a)
      | None => s end) "default" = dict_get s "default").
  { intros s. destruct (autocomplete t) as [a|]; [|reflexivity].
    destruct (String.eqb a ""); [reflexivity|]. by apply dict_get_set_ne. }
  rewrite Hs1.
  destruct (multi t), (select_defaults evaluate opts ctx) as [|d ds'].
  - rewrite !dict_get_set_ne by discriminate. reflexivity.
  - by rewrite dict_get_set_eq.
  - reflexivity.
  - by rewrite dict_get_set_eq.
Qed.

Definition opts_abc : list (string * SelectFieldOption) :=
  [("a", mkSelectFieldOption None false);
   ("b", mkSelectFieldOption (Some "age >= 18") false);
   ("c", mkSelectFieldOption None true)].

Definition eval_true (_ : string) (_ : json) : json := JBool true.

Example select_schema_multi_defaults :
  dict_get (select_get_schema eval_true (mkSelectFieldTemplate "checkbox" [] 0 3 None)
              [("type", JStr "array")] opts_abc JNull) "default" =
  Some (JArr [JStr "b"; JStr "c"]).
Proof. reflexivity. Qed.

Example select_schema_single_default :
  dict_get (select_get_schema eval_true select_1_1 [("type", JStr "string")]
              opts_abc JNull) "default" = Some (JStr "b").
Proof. reflexivity. Qed.

(** ** C7 *)

(** C7: in the update route, once the stored context is found, a
    [ValidationError] of the update becomes the HTTP 422 error "Invalid
    input", any other exception escapes the handler (a server-side failure),
    and in both cases the storage is left unchanged; the storage gains an
    entry (the new context, under a new key) only when the update
    succeeds. *)
Theorem C7_update_route_errors upd req (st : Storage) c :
  storage_get st (req_state req) = Some c ->
  (forall m, upd c (req_responses req) = Err (ValidationError m) ->
     update_interview_route upd req st = (RHttpError 422 "Invalid input", st)) /\
  (forall e, is_validation_error e = false -> upd c (req_responses req) = Err e ->
     update_interview_route upd req st = (RRaised e, st)) /\
  (forall e, upd c (req_responses req) = Err e ->
     (update_interview_route upd req st).2 = st) /\
  (forall rc content, upd c (req_responses req) = Ok (rc, content) ->
     update_interview_route upd req st =
       (RResponse (mkInterviewResponse (List.length st) (completed (state rc)) content),
        (st ++ [rc])%list)).
Proof.
  intros Hg. unfold update_interview_route. rewrite Hg. split; [|split; [|split]].
  - intros m Hu. by rewrite Hu.
  - intros e He Hu. rewrite Hu. destruct e; done.
  - intros e Hu. rewrite Hu. by destruct e.
  - intros rc content Hu. by rewrite Hu.
Qed.

Definition upd_reject (_ : InterviewContext) (_ : option (list (string * json)))
  : result (InterviewContext * option Content) :=
  Err (ValidationError "Choose at least 1").

Lemma C7_update_route_errors_witness :
  storage_get [ctx_start] 0 = Some ctx_start /\
  update_interview_route upd_reject (mkInterviewUpdateRequest 0 (Some [])) [ctx_start] =
    (RHttpError 422 "Invalid input", [ctx_start]).
Proof.
  split; [reflexivity|].
  apply (proj1 (C7_update_route_errors upd_reject (mkInterviewUpdateRequest 0 (Some []))
           [ctx_start] ctx_start eq_refl) "Choose at least 1").
  reflexivity.
Defined.

(** ** C8 *)

(** C8: a mapping with the key "ask" is structured as an Ask step, else one
    with "exit" as an Exit step, else one with "set" as a Set step; anything
    else (a non-mapping, or a mapping with none of these keys) raises
    [ValueError("Invalid step: ...")]. *)
Theorem C8_structure_step_dispatch sa se ss :
  (forall kvs, dict_has kvs "ask" = true ->
     structure_step sa se ss (JObj kvs) = map_result StepAsk (sa (JObj kvs))) /\
  (forall kvs, dict_has kvs "ask" = false -> dict_has kvs "exit" = true ->
     structure_step sa se ss (JObj kvs) = map_result StepExit (se (JObj kvs))) /\
  (forall kvs, dict_has kvs "ask" = false -> dict_has kvs "exit" = false ->
     dict_has kvs "set" = true ->
     structure_step sa se ss (JObj kvs) = map_result StepSet (ss (JObj kvs))) /\
  (forall v, (forall kvs, v = JObj kvs ->
       dict_has kvs "ask" = false /\ dict_has kvs "exit" = false /\
       dict_has kvs "set" = false) ->
     structure_step sa se ss v = Err (ValueError ("Invalid step: " +:+ py_str v))).
Proof.
  unfold structure_step. split; [|split; [|split]].
  - intros kvs H. by rewrite H.
  - intros kvs H1 H2. by rewrite H1, H2.
  - intros kvs H1 H2 H3. by rewrite H1, H2, H3.
  - intros v Hv. destruct v as [| | | | |kvs]; try reflexivity.
    destruct (Hv kvs eq_refl) as (H1 & H2 & H3). by rewrite H1, H2, H3.
Qed.

Definition st_ask_plain (v : json) : result AskStep :=
  match v with
  | JObj kvs =>
      match dict_get kvs "ask" with
      | Some (JStr q) => Ok (mkAskStep q (WBool true))
      | _ => Err (ValueError "ask")
      end
  | _ => Err (ValueError "ask")
  end.
Definition st_exit_plain (_ : json) : result ExitStep := Ok (mkExitStep "" (WBool true)).
Definition st_set_plain (_ : json) : result SetStep := Ok (mkSetStep "" JNull (WBool true)).

Lemma C8_structure_step_dispatch_witness :
  structure_step st_ask_plain st_exit_plain st_set_plain
    (JObj [("set", JStr "x"); ("ask", JStr "q1")]) =
    Ok (StepAsk (mkAskStep "q1" (WBool true))) /\
  structure_step st_ask_plain st_exit_plain st_set_plain (JArr []) =
    Err (ValueError "Invalid step: []").
Proof.
  destruct (C8_structure_step_dispatch st_ask_plain st_exit_plain st_set_plain)
    as (Ha & _ & _ & Hi).
  split.
  - rewrite Ha by reflexivity. reflexivity.
  - rewrite Hi by discriminate. reflexivity.
Defined.

(** ** C9 *)

Section LruFacts.
Context {K V : Type} `{EqDecision K}.
Variable f : K -> V.
Variable maxsize : nat.
Hypothesis maxsize_pos : 0 < maxsize.

(** Every cached entry holds the value of the wrapped function. *)
Definition cache_sound (c : list (K * V)) : Prop :=
  forall k v, (k, v) ∈ c -> v = f k.

Lemma cache_lookup_elem (c : list (K * V)) k v :
  cache_lookup c k = Some v -> (k, v) ∈ c.
Proof.
  induction c as [|[k' v'] c IH]; cbn; [discriminate|].
  case_decide; intros Hl.
  - inversion Hl; subst. left.
  - right. by apply IH.
Qed.

Lemma cache_lookup_cons (c : list (K * V)) k k' v' :
  cache_lookup ((k', v') :: c) k =
  if decide (k = k') then Some v' else cache_lookup c k.
Proof. reflexivity. Qed.

Lemma cache_remove_shorter (c : list (K * V)) k v :
  cache_lookup c k = Some v -> List.length (cache_remove c k) < List.length c.
Proof.
  induction c as [|[k' v'] c IH]; [discriminate|].
  rewrite cache_lookup_cons. unfold cache_remove in *.
  rewrite filter_cons. cbn [fst].
  destruct (decide (k = k')) as [->|Hne]; intros Hl.
  - rewrite decide_False by (intros H; by apply H).
    apply Nat.lt_succ_r, length_filter.
  - rewrite decide_True by congruence. cbn [List.length].
    specialize (IH Hl). lia.
Qed.

Lemma lru_call_sound (c : list (K * V)) k :
  cache_sound c ->
  let '(v, _, c') := lru_call f maxsize c k in
  v = f k /\ cache_sound c' /\ cache_lookup c' k = Some (f k).
Proof.
  intros Hs. unfold lru_call. destruct (cache_lookup c k) as [v|] eqn:Hl.
  - assert (Hv : v = f k) by (apply Hs, cache_lookup_elem, Hl). subst v.
    split; [done|]. split.
    + intros k' v' Hin. apply elem_of_cons in Hin as [Heq|Hin].
      * by inversion Heq.
      * unfold cache_remove in Hin. apply list_elem_of_filter in Hin as [_ Hin].
        by apply Hs.
    + cbn. by rewrite decide_True.
  - split; [done|]. split.
    + intros k' v' Hin. apply elem_of_take in Hin as [i [Hi _]].
      apply list_elem_of_lookup_2 in Hi.
      apply elem_of_cons in Hi as [Heq|Hin].
      * by inversion Heq.
      * by apply Hs.
    + destruct maxsize as [|n]; [lia|]. cbn. by rewrite decide_True.
Qed.

Lemma lru_call_bounded (c : list (K * V)) k :
  List.length c <= maxsize ->
  List.length (lru_call f maxsize c k).2 <= maxsize.
Proof.
  intros Hb. unfold lru_call. destruct (cache_lookup c k) as [v|] eqn:Hl; cbn.
  - pose proof (cache_remove_shorter c k v Hl). lia.
  - rewrite length_take. lia.
Qed.

Lemma lru_run_spec (c : list (K * V)) (ks : list K) :
  cache_sound c -> List.length c <= maxsize ->
  let '(vs, c') := lru_run f maxsize c ks in
  vs = map f ks /\ cache_sound c' /\ List.length c' <= maxsize /\
  (forall k, last ks = Some k -> cache_lookup c' k = Some (f k)).
Proof.
  revert c. induction ks as [|k ks IH]; intros c Hs Hb; cbn.
  - repeat split; done.
  - pose proof (lru_call_sound c k Hs) as Hc.
    pose proof (lru_call_bounded c k Hb) as Hb'.
    destruct (lru_call f maxsize c k) as [[v b] c1] eqn:Hcall.
    destruct Hc as (-> & Hs1 & Hl1). cbn in Hb'.
    specialize (IH c1 Hs1 Hb').
    destruct (lru_run f maxsize c1 ks) as [vs c2] eqn:Hrun.
    destruct IH as (-> & Hs2 & Hb2 & Hlast). repeat split; try done.
    intros k' Hk'. destruct ks as [|k2 ks'].
    + cbn in Hk', Hrun. inversion Hk'; inversion Hrun; subst. done.
    + by apply Hlast.
Qed.
End LruFacts.

(** C9: a cache of [maxsize=1024] entries around a pure structure function
    [f], keyed by the call's arguments (the source text, and the requested
    type for the two-argument hooks): over any sequence of calls starting
    from the empty cache, every call returns what [f] returns on the same
    key, the cache never holds more than 1024 entries, every entry holds [f]
    of its key, and calling the most recent key again is a hit that does not
    run [f] and moves the entry to the front (least recently used entries
    are the ones dropped on a miss). *)
Theorem C9_lru_structure_cache {K V : Type} `{EqDecision K} (f : K -> V)
    (ks : list K) :
  let '(vs, c) := lru_run f lru_maxsize [] ks in
  vs = map f ks /\
  List.length c <= lru_maxsize /\
  (forall k v, (k, v) ∈ c -> v = f k) /\
  (forall k, last ks = Some k ->
     lru_call f lru_maxsize c k = (f k, false, (k, f k) :: cache_remove c k)) /\
  (forall k, cache_lookup c k = None ->
     lru_call f lru_maxsize c k = (f k, true, take lru_maxsize ((k, f k) :: c))).
Proof.
  assert (Hs0 : cache_sound f (@nil (K * V))) by (intros k v Hin; set_solver).
  assert (Hb0 : List.length (@nil (K * V)) <= lru_maxsize) by (cbn; lia).
  pose proof (lru_run_spec f lru_maxsize ltac:(unfold lru_maxsize; lia) [] ks Hs0 Hb0)
    as Hrun.
  destruct (lru_run f lru_maxsize [] ks) as [vs c].
  destruct Hrun as (Hvs & Hs & Hb & Hlast).
  split; [done|]. split; [done|]. split; [done|]. split.
  - intros k Hk. unfold lru_call. by rewrite (Hlast k Hk).
  - intros k Hk. unfold lru_call. by rewrite Hk.
Qed.

Example lru_repeat_source :
  (lru_run (fun s : string => String.length s) lru_maxsize []
     ["x + 1"; "y"; "x + 1"]).1 = [5; 1; 5].
Proof. reflexivity. Qed.

(** ** C10 *)

(** C10: starting an interview either fails with 404 (unknown interview, no
    storage change) or answers with the key of the freshly stored context,
    the new state's [completed] flag and no content; the stored state holds
    the request's target, context and data unchanged. *)
Theorem C10_start_no_content (interviews : gmap string Interview)
    (iid : string) (req : InterviewStartRequest) (st : Storage) :
  let '(out, st') := start_interview interviews iid req st in
  (out = RHttpError 404 "Not Found" /\ st' = st /\ interviews !! iid = None) \/
  (exists r c,
     out = RResponse r /\
     resp_content r = None /\
     resp_state r = List.length st /\
     st' = (st ++ [c])%list /\
     storage_get st' (resp_state r) = Some c /\
     resp_completed r = completed (state c) /\
     target (state c) = req_target req /\
     context (state c) = req_context req /\
     data (state c) = req_data req).
Proof.
  unfold start_interview. destruct (interviews !! iid) as [i|] eqn:Hi.
  - right. eexists _, _. repeat split; try reflexivity.
    unfold storage_get, storage_put. cbn [fst snd].
    by apply list_lookup_middle.
  - left. done.
Qed.

(** * Further properties of the code *)

(** ** The Ask step *)

Lemma ask_call_ok_cases gq a ctx r :
  ask_call gq a ctx = Ok r ->
  ((ask a ∈ answered_question_ids (state ctx)) /\ r = mkUpdateResult ctx None) \/
  (exists qt, (ask a ∉ answered_question_ids (state ctx)) /\
     question_templates ctx !! ask a = Some qt /\
     r = mkUpdateResult
           (with_state ctx (state_update (state ctx) (Some qt)
              (answered_question_ids (state ctx) ∪ {[ ask a ]})))
           (Some (AskResult (q_schema (gq qt (template_context (state ctx))))))).
Proof.
  unfold ask_call. case_decide as Hin; intros Hr.
  - left. inversion Hr. done.
  - right. destruct (question_templates ctx !! ask a) as [qt|] eqn:Hq; [|discriminate].
    inversion Hr. by exists qt.
Qed.

(** The Ask step only changes [answered_question_ids] and
    [current_question]: the script, the target, the context, the data and
    the completion flag are kept. *)
Theorem ask_call_preserves_rest gq a ctx r :
  ask_call gq a ctx = Ok r ->
  question_templates (ur_context r) = question_templates ctx /\
  steps (ur_context r) = steps ctx /\
  target (state (ur_context r)) = target (state ctx) /\
  context (state (ur_context r)) = context (state ctx) /\
  data (state (ur_context r)) = data (state ctx) /\
  completed (state (ur_context r)) = completed (state ctx).
Proof.
  intros H. destruct (ask_call_ok_cases gq a ctx r H) as [[_ ->]|(qt & _ & _ & ->)];
    cbn; repeat split.
Qed.

Lemma ask_call_preserves_rest_witness :
  exists r, ask_call render_plain (mkAskStep "q1" (WBool true)) ctx_start = Ok r /\
  data (state (ur_context r)) = data (state ctx_start).
Proof.
  eexists. split; [reflexivity|].
  apply (ask_call_preserves_rest render_plain (mkAskStep "q1" (WBool true)) ctx_start).
  reflexivity.
Defined.

(** [answered_question_ids] only grows through an Ask step. *)
Theorem ask_call_answered_monotone gq a ctx r :
  ask_call gq a ctx = Ok r ->
  answered_question_ids (state ctx) ⊆ answered_question_ids (state (ur_context r)).
Proof.
  intros H. destruct (ask_call_ok_cases gq a ctx r H) as [[_ ->]|(qt & _ & _ & ->)];
    cbn; set_solver.
Qed.

Lemma ask_call_answered_monotone_witness :
  exists r, ask_call render_plain (mkAskStep "q1" (WBool true)) ctx_start = Ok r /\
  answered_question_ids (state ctx_start) ⊆ answered_question_ids (state (ur_context r)).
Proof.
  eexists. split; [reflexivity|].
  apply (ask_call_answered_monotone render_plain (mkAskStep "q1" (WBool true)) ctx_start).
  reflexivity.
Defined.

(** Invoking the same Ask step again on the context it returned is a no-op:
    a question is asked at most once. *)
Theorem ask_call_twice_noop gq a ctx r :
  ask_call gq a ctx = Ok r ->
  ask_call gq a (ur_context r) = Ok (mkUpdateResult (ur_context r) None).
Proof.
  intros H. apply ask_call_answered.
  destruct (ask_call_ok_cases gq a ctx r H) as [[Hin ->]|(qt & _ & _ & ->)];
    cbn; set_solver.
Qed.

Lemma ask_call_twice_noop_witness :
  exists r, ask_call render_plain (mkAskStep "q1" (WBool true)) ctx_start = Ok r /\
  ask_call render_plain (mkAskStep "q1" (WBool true)) (ur_context r) =
    Ok (mkUpdateResult (ur_context r) None).
Proof.
  eexists. split; [reflexivity|].
  apply (ask_call_twice_noop render_plain (mkAskStep "q1" (WBool true)) ctx_start).
  reflexivity.
Defined.

(** The Ask step returns content exactly when it changes the context. *)
Theorem ask_call_content_iff_changed gq a ctx r :
  ask_call gq a ctx = Ok r ->
  (ur_content r = None <-> ur_context r = ctx).
Proof.
  intros H. destruct (ask_call_ok_cases gq a ctx r H) as [[_ ->]|(qt & Hn & _ & ->)];
    cbn; [done|].
  split; [discriminate|]. intros Heq. exfalso.
  apply Hn. rewrite <- Heq. cbn. set_solver.
Qed.

Lemma ask_call_content_iff_changed_witness :
  exists r, ask_call render_plain (mkAskStep "q1" (WBool true)) ctx_start = Ok r /\
  (ur_content r = None <-> ur_context r = ctx_start).
Proof.
  eexists. split; [reflexivity|].
  apply (ask_call_content_iff_changed render_plain (mkAskStep "q1" (WBool true)) ctx_start).
  reflexivity.
Defined.

(** ** The routes *)

(** A successful update stores the new context under a new key: the key in
    the response retrieves exactly the updated context, it differs from the
    key the request read, every context stored before is still there, and
    the response carries the new state's [completed] flag and the update's
    content. *)
Theorem update_route_success_stores upd req (st : Storage) c rc content :
  storage_get st (req_state req) = Some c ->
  upd c (req_responses req) = Ok (rc, content) ->
  let '(out, st') := update_interview_route upd req st in
  exists r,
    out = RResponse r /\
    storage_get st' (resp_state r) = Some rc /\
    resp_state r <> req_state req /\
    (forall k, k < List.length st -> storage_get st' k = storage_get st k) /\
    resp_completed r = completed (state rc) /\
    resp_content r = content.
Proof.
  intros Hg Hu. unfold update_interview_route. rewrite Hg, Hu. cbn.
  eexists. split; [reflexivity|]. cbn. split; [|split; [|split]]; try done.
  - unfold storage_get. by apply list_lookup_middle.
  - unfold storage_get in Hg. apply lookup_lt_Some in Hg. lia.
  - intros k Hk. unfold storage_get. by apply lookup_app_l.
Qed.

Definition upd_complete (c : InterviewContext) (_ : option (list (string * json)))
  : result (InterviewContext * option Content) :=
  Ok (with_state c (mkInterviewState (target (state c)) (context (state c))
                      (data (state c)) (answered_question_ids (state c)) None true),
      None).

Lemma update_route_success_stores_witness :
  storage_get [ctx_start] 0 = Some ctx_start /\
  exists r, (update_interview_route upd_complete (mkInterviewUpdateRequest 0 None)
               [ctx_start]).1 = RResponse r /\ resp_completed r = true.
Proof.
  split; [reflexivity|].
  pose proof (update_route_success_stores upd_complete (mkInterviewUpdateRequest 0 None)
    [ctx_start] ctx_start _ None eq_refl eq_refl) as H.
  destruct (update_interview_route upd_complete _ _) as [out st'].
  destruct H as (r & -> & _ & _ & _ & Hc & _). exists r. by split.
Defined.

(** Starting an interview and then updating it with the returned key
    resumes the started interview: the key retrieves a context with the
    interview's questions and steps and a state with the request's target,
    context and data, nothing answered and no pending question. *)
Theorem start_then_update_resumes (interviews : gmap string Interview)
    (iid : string) (req : InterviewStartRequest) (st : Storage) i :
  interviews !! iid = Some i ->
  let '(out, st') := start_interview interviews iid req st in
  exists r c,
    out = RResponse r /\
    storage_get st' (resp_state r) = Some c /\
    question_templates c = questions i /\
    steps c = interview_steps i /\
    target (state c) = req_target req /\
    context (state c) = req_context req /\
    data (state c) = req_data req /\
    answered_question_ids (state c) = ∅ /\
    current_question (state c) = None /\
    (forall upd resps,
       update_interview_route upd (mkInterviewUpdateRequest (resp_state r) resps) st' =
       match upd c resps with
       | Err (ValidationError _) => (RHttpError 422 "Invalid input", st')
       | Err e => (RRaised e, st')
       | Ok (rc, content) =>
           (RResponse (mkInterviewResponse (List.length st') (completed (state rc)) content),
            (st' ++ [rc])%list)
       end).
Proof.
  intros Hi. unfold start_interview. rewrite Hi. cbn.
  assert (Hget : storage_get ((st ++ [make_interview_context (questions i)
      (interview_steps i) (new_interview_state (req_target req) (req_context req)
      (req_data req))])%list) (List.length st) =
      Some (make_interview_context (questions i) (interview_steps i)
              (new_interview_state (req_target req) (req_context req) (req_data req)))).
  { unfold storage_get. by apply list_lookup_middle. }
  eexists _, _. split; [reflexivity|]. cbn [resp_state].
  split; [exact Hget|]. repeat split.
  intros upd resps. unfold update_interview_route. cbn [req_state req_responses].
  rewrite Hget. reflexivity.
Qed.

Definition interviews_one : gmap string Interview :=
  {[ "reg" := mkInterview {[ "q1" := qt_q1 ]} [StepAsk (mkAskStep "q1" (WBool true))] ]}.

Lemma start_then_update_resumes_witness :
  interviews_one !! "reg" = Some (mkInterview {[ "q1" := qt_q1 ]}
                                   [StepAsk (mkAskStep "q1" (WBool true))]) /\
  exists r, (start_interview interviews_one "reg"
               (mkInterviewStartRequest (Some "attendee") (JObj []) (JObj [])) []).1
            = RResponse r.
Proof.
  split; [reflexivity|].
  pose proof (start_then_update_resumes interviews_one "reg"
    (mkInterviewStartRequest (Some "attendee") (JObj []) (JObj [])) []
    _ eq_refl) as H.
  destruct (start_interview _ _ _ _) as [out st'].
  destruct H as (r & c & -> & _). by exists r.
Defined.

(** ** The select field schema *)

Ltac dict_simp :=
  repeat first
    [ rewrite dict_get_set_eq
    | rewrite dict_get_set_ne by (intros ?; subst; try discriminate; set_solver) ].

Lemma autocomplete_step_get t (s : list (string * json)) k :
  k <> "x-autoComplete" ->
  dict_get (match autocomplete t with
            | Some a => if String.eqb a "" then s else dict_set s "x-autoComplete" (JStr a)
            | None => s end) k = dict_get s k.
Proof.
  intros Hk. destruct (autocomplete t) as [a|]; [|done].
  destruct (String.eqb a ""); [done|]. by apply dict_get_set_ne.
Qed.

(** For a multi field the schema gets [minItems = min] and
    [maxItems = max]; for a non-multi field these entries are those of the
    base schema. *)
Theorem select_schema_item_bounds evaluate (t : SelectFieldTemplate) base opts ctx :
  dict_get (select_get_schema evaluate t base opts ctx) "minItems" =
    (if multi t then Some (JInt (sf_min t)) else dict_get base "minItems") /\
  dict_get (select_get_schema evaluate t base opts ctx) "maxItems" =
    (if multi t then Some (JInt (sf_max t)) else dict_get base "maxItems").
Proof.
  unfold select_get_schema. cbv zeta.
  split; rewrite dict_get_set_ne by discriminate;
    rewrite autocomplete_step_get by discriminate;
    destruct (multi t), (select_defaults evaluate opts ctx); dict_simp; done.
Qed.

(** The schema's [x-component] is always the field's component; its
    [x-autoComplete] is the field's autocomplete value when that is a
    non-empty string, and is otherwise left as in the base schema. *)
Theorem select_schema_component evaluate (t : SelectFieldTemplate) base opts ctx :
  dict_get (select_get_schema evaluate t base opts ctx) "x-component" =
    Some (JStr (component t)) /\
  dict_get (select_get_schema evaluate t base opts ctx) "x-autoComplete" =
    match autocomplete t with
    | Some a => if String.eqb a "" then dict_get base "x-autoComplete" else Some (JStr a)
    | None => dict_get base "x-autoComplete"
    end.
Proof.
  unfold select_get_schema. cbv zeta. split; [apply dict_get_set_eq|].
  rewrite dict_get_set_ne by discriminate.
  destruct (autocomplete t) as [a|];
    [destruct (String.eqb a ""); [|apply dict_get_set_eq]|];
    destruct (multi t), (select_defaults evaluate opts ctx); dict_simp; done.
Qed.

(** Every other entry of the base schema is kept as it is. *)
Theorem select_schema_keeps_base evaluate (t : SelectFieldTemplate) base opts ctx k :
  k ∉ ["default"; "minItems"; "maxItems"; "x-autoComplete"; "x-component"] ->
  dict_get (select_get_schema evaluate t base opts ctx) k = dict_get base k.
Proof.
  intros Hk. unfold select_get_schema. cbv zeta.
  rewrite dict_get_set_ne by (intros ->; set_solver).
  rewrite autocomplete_step_get by (intros ->; set_solver).
  destruct (multi t), (select_defaults evaluate opts ctx); dict_simp; done.
Qed.

Lemma select_schema_keeps_base_witness :
  ("enum" ∉ ["default"; "minItems"; "maxItems"; "x-autoComplete"; "x-component"]) /\
  dict_get (select_get_schema eval_true select_1_3
              [("type", JStr "array"); ("enum", JArr [JStr "a"])] opts_abc JNull) "enum" =
    Some (JArr [JStr "a"]).
Proof.
  split; [set_solver|].
  rewrite (select_schema_keeps_base eval_true select_1_3 _ opts_abc JNull "enum")
    by set_solver.
  reflexivity.
Defined.

(** The size validator returns the submitted value itself when it accepts
    it, and raises [TypeError] for an answer without a length (null, a
    boolean or a number). *)
Theorem validate_size_identity_or_error (t : SelectFieldTemplate) (v : json) :
  (forall v', validate_size t v = Ok v' -> v' = v) /\
  (match v with
   | JNull | JBool _ | JInt _ => exists m, validate_size t v = Err (TypeError m)
   | _ => True
   end).
Proof.
  split.
  - unfold validate_size. destruct (py_len v); [|discriminate].
    destruct (Z.ltb _ _); [discriminate|]. destruct (Z.ltb _ _); [discriminate|].
    intros v' Hv. by inversion Hv.
  - destruct v; try exact I; eexists; reflexivity.
Qed.

Lemma run_validators_app (vs1 vs2 : list Validator) v :
  run_validators (vs1 ++ vs2) v =
  match run_validators vs1 v with
  | Ok v' => run_validators vs2 v'
  | Err e => Err e
  end.
Proof.
  revert v. induction vs1 as [|f vs1 IH]; intros v; [reflexivity|].
  cbn. destruct (f v) as [v'|[]]; auto.
Qed.

(** Whatever the base validators of [SelectFieldTemplateBase] do, the
    select field adds nothing to them when it is not multi; when it is multi,
    an answer the base validators turn into a list of [n] choices is then
    checked against [[min, max]], a failure of the base validators is
    reported as it is, and every accepted answer has a length within
    [[min, max]]. *)
Theorem select_validators_size_gate (base : SelectFieldTemplate -> list Validator)
    (t : SelectFieldTemplate) (v : json) :
  (multi t = false ->
     run_validators (select_get_validators base t) v = run_validators (base t) v) /\
  (multi t = true -> forall l, run_validators (base t) v = Ok (JArr l) ->
     run_validators (select_get_validators base t) v = size_outcome t l) /\
  (forall e, run_validators (base t) v = Err e ->
     run_validators (select_get_validators base t) v = Err e) /\
  (multi t = true -> forall v', run_validators (select_get_validators base t) v = Ok v' ->
     exists n, py_len v' = Ok n /\ (sf_min t <= n <= sf_max t)%Z).
Proof.
  unfold select_get_validators. rewrite run_validators_app.
  split; [|split; [|split]].
  - intros Hm. rewrite Hm. destruct (run_validators (base t) v); reflexivity.
  - intros Hm l Hb. rewrite Hm, Hb. unfold size_outcome. cbn.
    destruct (Z.ltb _ (sf_min t)); [reflexivity|].
    destruct (Z.ltb (sf_max t) _); reflexivity.
  - intros e He. rewrite He. reflexivity.
  - intros Hm v' Hr. rewrite Hm in Hr.
    destruct (run_validators (base t) v) as [v0|e]; [|discriminate].
    cbn in Hr. unfold validate_size in Hr.
    destruct (py_len v0) as [n|e] eqn:Hn; [|destruct e; discriminate].
    destruct (Z.ltb n (sf_min t)) eqn:H1; [discriminate|].
    destruct (Z.ltb (sf_max t) n) eqn:H2; [discriminate|].
    inversion Hr; subst v'. exists n. split; [done|].
    apply Z.ltb_ge in H1. apply Z.ltb_ge in H2. lia.
Qed.

Lemma select_validators_size_gate_witness :
  multi select_1_3 = true /\
  run_validators (select_get_validators (fun _ => []) select_1_3)
    (JArr [JStr "a"; JStr "b"; JStr "c"; JStr "d"]) =
    Err (ValidationError "Choose at most 3").
Proof.
  split; [reflexivity|].
  rewrite (proj1 (proj2 (select_validators_size_gate (fun _ => []) select_1_3
    (JArr [JStr "a"; JStr "b"; JStr "c"; JStr "d"]))) eq_refl
    [JStr "a"; JStr "b"; JStr "c"; JStr "d"] eq_refl).
  reflexivity.
Defined.

(** ** Structuring steps *)

(** A step comes only out of a mapping, and its variant matches the
    mapping's keys: an Ask step only when "ask" is present, an Exit step only
    when "exit" is present and "ask" is not, a Set step only when "set" is
    present and neither "ask" nor "exit" is. *)
Theorem structure_step_sound sa se ss v s :
  structure_step sa se ss v = Ok s ->
  exists kvs, v = JObj kvs /\
    match s with
    | StepAsk _ => dict_has kvs "ask" = true
    | StepExit _ => dict_has kvs "ask" = false /\ dict_has kvs "exit" = true
    | StepSet _ => dict_has kvs "ask" = false /\ dict_has kvs "exit" = false /\
                   dict_has kvs "set" = true
    end.
Proof.
  unfold structure_step. cbv zeta. intros Hr.
  destruct v as [| | | | |kvs]; try discriminate.
  exists kvs. split; [done|].
  destruct (dict_has kvs "ask") eqn:Ha.
  - destruct (sa (JObj kvs)); inversion Hr; done.
  - destruct (dict_has kvs "exit") eqn:He.
    + destruct (se (JObj kvs)); inversion Hr; done.
    + destruct (dict_has kvs "set") eqn:Hs; [|discriminate].
      destruct (ss (JObj kvs)); inversion Hr; done.
Qed.

Lemma structure_step_sound_witness :
  structure_step st_ask_plain st_exit_plain st_set_plain
    (JObj [("exit", JStr "bail"); ("set", JStr "x")]) = Ok (StepExit (mkExitStep "" (WBool true))) /\
  dict_has [("exit", JStr "bail"); ("set", JStr "x")] "exit" = true.
Proof.
  split; [reflexivity|].
  destruct (structure_step_sound st_ask_plain st_exit_plain st_set_plain
    (JObj [("exit", JStr "bail"); ("set", JStr "x")]) (StepExit (mkExitStep "" (WBool true)))
    eq_refl) as (kvs & Hv & _ & He).
  inversion Hv; subst. exact He.
Defined.

(** ** The LRU cache of the structure functions *)

Section LruMore.
Context {K V : Type} `{EqDecision K}.
Variable f : K -> V.
Variable maxsize : nat.

Lemma sublist_map_fst (l1 l2 : list (K * V)) :
  l1 `sublist_of` l2 -> map fst l1 `sublist_of` map fst l2.
Proof.
  induction 1; cbn; [constructor| by apply sublist_skip | by apply sublist_cons].
Qed.

Lemma cache_lookup_None_notin (c : list (K * V)) k :
  cache_lookup c k = None -> k ∉ map fst c.
Proof.
  induction c as [|[k' v'] c IH]; cbn; [set_solver|].
  case_decide as Hk; [discriminate|]. intros Hl.
  apply not_elem_of_cons. split; [done|]. by apply IH.
Qed.

Lemma cache_lookup_of_in (c : list (K * V)) k :
  k ∈ map fst c -> exists v, cache_lookup c k = Some v.
Proof.
  induction c as [|[k' v'] c IH]; cbn; [set_solver|].
  intros Hin. case_decide as Hk; [by eexists|].
  apply IH. apply elem_of_cons in Hin as [->|Hin]; [done|exact Hin].
Qed.

Lemma keys_cache_remove (c : list (K * V)) k k' :
  k' ∈ map fst (cache_remove c k) <-> k' ∈ map fst c /\ k' <> k.
Proof.
  unfold cache_remove. rewrite !list_elem_of_fmap. split.
  - intros [[k1 v1] [-> Hin]]. apply list_elem_of_filter in Hin as [Hne Hin].
    split; [by exists (k1, v1)|done].
  - intros [[[k1 v1] [-> Hin]] Hne]. exists (k1, v1). split; [done|].
    by apply list_elem_of_filter.
Qed.

Lemma lru_call_keys_nodup (c : list (K * V)) k :
  NoDup (map fst c) -> NoDup (map fst (lru_call f maxsize c k).2).
Proof.
  intros Hnd. unfold lru_call. destruct (cache_lookup c k) as [v|] eqn:Hl; cbn.
  - apply NoDup_cons. split.
    + rewrite keys_cache_remove. tauto.
    + eapply sublist_NoDup; [exact Hnd|]. apply sublist_map_fst, sublist_filter.
  - eapply sublist_NoDup; [|apply sublist_map_fst, sublist_take].
    cbn. apply NoDup_cons. split; [by apply cache_lookup_None_notin|done].
Qed.

Lemma lru_call_keeps (c : list (K * V)) k (all : list K) :
  NoDup (map fst c) -> (forall k', k' ∈ map fst c -> k' ∈ all) -> k ∈ all ->
  List.length (remove_dups all) <= maxsize ->
  let c' := (lru_call f maxsize c k).2 in
  (forall k', k' ∈ map fst c' -> k' ∈ all) /\
  (forall k', k' ∈ map fst c \/ k' = k -> k' ∈ map fst c').
Proof.
  intros Hnd Hall Hk Hcap c'. subst c'. unfold lru_call.
  destruct (cache_lookup c k) as [v|] eqn:Hl; cbn.
  - split.
    + intros k' Hin. apply elem_of_cons in Hin as [->|Hin]; [done|].
      apply keys_cache_remove in Hin as [Hin _]. by apply Hall.
    + intros k' Hk'. destruct (decide (k' = k)) as [->|Hne]; [left|].
      right. apply keys_cache_remove. split; [|done]. by destruct Hk'.
  - assert (Hlen : List.length ((k, f k) :: c) <= maxsize).
    { cbn. rewrite <- (length_map fst c).
      assert (Hsub : (k :: map fst c) ⊆+ remove_dups all).
      { apply NoDup_submseteq.
        - apply NoDup_cons. split; [by apply cache_lookup_None_notin|done].
        - intros x Hx. apply elem_of_remove_dups.
          apply elem_of_cons in Hx as [->|Hx]; [done|by apply Hall]. }
      apply submseteq_length in Hsub. cbn in Hsub. lia. }
    rewrite take_ge by exact Hlen. cbn. split.
    + intros k' Hin. apply elem_of_cons in Hin as [->|Hin]; [done|by apply Hall].
    + intros k' [Hin| ->]; [by right|left].
Qed.

Lemma lru_run_keeps (c : list (K * V)) ks (all : list K) :
  NoDup (map fst c) -> (forall k', k' ∈ map fst c -> k' ∈ all) ->
  (forall k', k' ∈ ks -> k' ∈ all) ->
  List.length (remove_dups all) <= maxsize ->
  forall k', k' ∈ map fst c \/ k' ∈ ks -> k' ∈ map fst (lru_run f maxsize c ks).2.
Proof.
  revert c. induction ks as [|k ks IH]; intros c Hnd Hall Hks Hcap k' Hk'; cbn.
  - destruct Hk' as [Hk'|Hk']; [done|set_solver].
  - destruct (lru_call_keeps c k all Hnd Hall ltac:(apply Hks; left) Hcap)
      as [Hall' Hkeep].
    pose proof (lru_call_keys_nodup c k Hnd) as Hnd'.
    destruct (lru_call f maxsize c k) as [[v b] c1] eqn:Hcall. cbn in *.
    specialize (IH c1 Hnd' Hall' ltac:(intros x Hx; apply Hks; by right) Hcap k').
    destruct (lru_run f maxsize c1 ks) as [vs c2]. cbn in *. apply IH.
    destruct Hk' as [Hk'|Hk'].
    + left. apply Hkeep. by left.
    + apply elem_of_cons in Hk' as [->|Hk']; [left; apply Hkeep; by right|by right].
Qed.

Lemma lru_run_keys_nodup (c : list (K * V)) ks :
  NoDup (map fst c) -> NoDup (map fst (lru_run f maxsize c ks).2).
Proof.
  revert c. induction ks as [|k ks IH]; intros c Hnd; cbn; [done|].
  pose proof (lru_call_keys_nodup c k Hnd) as Hnd'.
  destruct (lru_call f maxsize c k) as [[v b] c1]. cbn in Hnd'.
  specialize (IH c1 Hnd'). destruct (lru_run f maxsize c1 ks). exact IH.
Qed.
End LruMore.

(** Over any sequence of calls from the empty cache, the cache never holds
    two entries for the same key. *)
Theorem lru_keys_distinct {K V : Type} `{EqDecision K} (f : K -> V) (ks : list K) :
  NoDup (map fst (lru_run f lru_maxsize [] ks).2).
Proof. apply lru_run_keys_nodup. constructor. Qed.

(** As long as at most 1024 distinct keys (sources) have been structured,
    nothing is evicted: every key structured so far is still cached with its
    compiled value, so structuring it again does not run the wrapped
    function. *)
Theorem lru_no_eviction_within_capacity {K V : Type} `{EqDecision K}
    (f : K -> V) (ks : list K) :
  List.length (remove_dups ks) <= lru_maxsize ->
  forall k, k ∈ ks ->
  cache_lookup (lru_run f lru_maxsize [] ks).2 k = Some (f k) /\
  (lru_call f lru_maxsize (lru_run f lru_maxsize [] ks).2 k).1.2 = false.
Proof.
  intros Hcap k Hk.
  assert (Hin : k ∈ map fst (lru_run f lru_maxsize [] ks).2).
  { apply (lru_run_keeps f lru_maxsize [] ks ks); try done.
    - constructor.
    - intros k' Hk'. cbn in Hk'. set_solver.
    - by right. }
  assert (Hs0 : cache_sound f (@nil (K * V))) by (intros k' v Hin'; set_solver).
  pose proof (lru_run_spec f lru_maxsize ltac:(unfold lru_maxsize; lia) [] ks Hs0
    ltac:(cbn; lia)) as Hspec.
  destruct (lru_run f lru_maxsize [] ks) as [vs c] eqn:Hrun. cbn in *.
  destruct Hspec as (_ & Hs & _ & _).
  destruct (cache_lookup_of_in c k Hin) as [v Hl].
  assert (v = f k) as -> by (apply Hs, cache_lookup_elem, Hl).
  split; [done|]. unfold lru_call. by rewrite Hl.
Qed.

Lemma lru_no_eviction_within_capacity_witness :
  List.length (remove_dups ["a"; "b"; "a"]) <= lru_maxsize /\
  cache_lookup (lru_run String.length lru_maxsize [] ["a"; "b"; "a"]).2 "b" = Some 1.
Proof.
  assert (Hcap : List.length (remove_dups ["a"; "b"; "a"]) <= lru_maxsize)
    by (apply Nat.leb_le; vm_compute; reflexivity).
  split; [exact Hcap|].
  exact (proj1 (lru_no_eviction_within_capacity String.length ["a"; "b"; "a"]
                  Hcap "b" ltac:(set_solver))).
Defined.

(** ** The converter hooks *)

Section PyLruFacts.
Context {A K V : Type} `{EqDecision K}.
Variable key : A -> K.
Variable f : A -> V.
Variable maxsize : nat.

Definition pcache_sound (c : list (A * V)) : Prop :=
  forall a v, (a, v) ∈ c -> v = f a.

Lemma pcache_lookup_Some (c : list (A * V)) k a v :
  pcache_lookup key c k = Some (a, v) -> (a, v) ∈ c /\ key a = k.
Proof.
  induction c as [|[a' v'] c IH]; cbn; [discriminate|].
  case_decide as Hk.
  - intros Hl. inversion Hl; subst. split; [left|done].
  - intros Hl. destruct (IH Hl) as [Hin Hk']. split; [by right|done].
Qed.

Lemma pcache_remove_shorter (c : list (A * V)) k a v :
  (a, v) ∈ c -> key a = k -> List.length (pcache_remove key c k) < List.length c.
Proof.
  induction c as [|[a' v'] c IH]; intros Hin Hk; [by apply elem_of_nil in Hin|].
  unfold pcache_remove in *. rewrite filter_cons. cbn [fst].
  apply elem_of_cons in Hin as [Heq|Hin].
  - inversion Heq; subst. rewrite decide_False by (intros H; by apply H).
    apply Nat.lt_succ_r, length_filter.
  - destruct (decide (key a' <> k)); cbn [List.length].
    + specialize (IH Hin Hk). lia.
    + apply Nat.lt_succ_r, length_filter.
Qed.

Lemma plru_call_spec (c : list (A * V)) a :
  pcache_sound c -> List.length c <= maxsize ->
  let '(x, c') := plru_call key f maxsize c a in
  (exists a0, key a0 = key a /\ x = f a0) /\ pcache_sound c' /\
  List.length c' <= maxsize.
Proof.
  intros Hs Hb. unfold plru_call.
  destruct (pcache_lookup key c (key a)) as [[a0 v]|] eqn:Hl.
  - destruct (pcache_lookup_Some c (key a) a0 v Hl) as [Hin Hk].
    split; [exists a0; split; [done|by apply Hs]|]. split.
    + intros a' v' Hin'. apply elem_of_cons in Hin' as [Heq|Hin'].
      * inversion Heq; subst. by apply Hs.
      * unfold pcache_remove in Hin'. apply list_elem_of_filter in Hin' as [_ Hin'].
        by apply Hs.
    + cbn [List.length]. pose proof (pcache_remove_shorter c (key a) a0 v Hin Hk). lia.
  - split; [by exists a|]. split.
    + intros a' v' Hin. apply elem_of_take in Hin as [i [Hi _]].
      apply list_elem_of_lookup_2 in Hi.
      apply elem_of_cons in Hi as [Heq|Hin].
      * by inversion Heq.
      * by apply Hs.
    + rewrite length_take. lia.
Qed.
End PyLruFacts.

Lemma py_hash_key_str v s : py_hash_key v = Some (JStr s) -> v = JStr s.
Proof. destruct v as [|[]| | | |]; cbn; congruence. Qed.

Lemma cached_structure_spec {R : Type} (fn : json * StructType -> R)
    (c : list ((json * StructType) * R)) (v : json) (t : StructType) :
  pcache_sound fn c -> List.length c <= lru_maxsize ->
  let '(r, c') := cached_structure fn c v t in
  pcache_sound fn c' /\ List.length c' <= lru_maxsize /\
  (py_hash_key v = None ->
     r = Err (TypeError ("unhashable type: '" +:+ py_type_name v +:+ "'")) /\ c' = c) /\
  (py_hash_key v <> None ->
     exists v0, py_hash_key v0 = py_hash_key v /\ r = Ok (fn (v0, t))).
Proof.
  intros Hs Hb. unfold cached_structure.
  destruct (py_hash_key v) as [h|] eqn:Hh.
  - pose proof (plru_call_spec py_call_key fn lru_maxsize c (v, t) Hs Hb) as Hc.
    destruct (plru_call py_call_key fn lru_maxsize c (v, t)) as [x c'].
    destruct Hc as ([[v0 t0] [Hk ->]] & Hs' & Hb').
    unfold py_call_key in Hk. cbn in Hk. inversion Hk; subst.
    split; [done|]. split; [done|]. split; [discriminate|].
    intros _. exists v0. split; [congruence|done].
  - split; [done|]. split; [done|]. split; [done|]. by intros [].
Qed.

(** Outcome of one element of a list given to the [Expression] hook. *)
Definition expr_elem_outcome {E : Type} (expr : json * StructType -> E)
  (x : json) (r : result E) : Prop :=
  (py_hash_key x = None ->
     r = Err (TypeError ("unhashable type: '" +:+ py_type_name x +:+ "'"))) /\
  (py_hash_key x <> None ->
     exists x0, py_hash_key x0 = py_hash_key x /\ r = Ok (expr (x0, TExpression))).

Lemma structure_expr_elems_spec {E : Type} (expr : json * StructType -> E)
    (c : list ((json * StructType) * E)) (l : list json) :
  pcache_sound expr c -> List.length c <= lru_maxsize ->
  let '(rs, c') := structure_expr_elems expr c l in
  pcache_sound expr c' /\ List.length c' <= lru_maxsize /\
  Forall2 (expr_elem_outcome expr) l rs.
Proof.
  revert c. induction l as [|x l IH]; intros c Hs Hb; cbn; [done|].
  pose proof (cached_structure_spec expr c x TExpression Hs Hb) as Hc.
  destruct (cached_structure expr c x TExpression) as [r c1].
  destruct Hc as (Hs1 & Hb1 & Hu & Hh).
  specialize (IH c1 Hs1 Hb1).
  destruct (structure_expr_elems expr c1 l) as [rs c2].
  destruct IH as (Hs2 & Hb2 & Hall).
  split; [done|]. split; [done|]. constructor; [|done].
  split; [intros H; by destruct (Hu H)|exact Hh].
Qed.

Lemma split_results_ok {E : Type} (xs : list E) :
  split_results (map Ok xs) = (xs, []).
Proof. induction xs as [|x xs IH]; cbn; [done|]. by rewrite IH. Qed.

Lemma split_results_err {E : Type} (rs : list (result E)) e :
  Err e ∈ rs -> (split_results rs).2 <> [].
Proof.
  induction rs as [|r rs IH]; intros Hin; [by apply elem_of_nil in Hin|].
  cbn. destruct (split_results rs) as [xs es] eqn:Hsr.
  apply elem_of_cons in Hin as [<-|Hin]; [done|].
  specialize (IH Hin). cbn in IH. destruct r; cbn; done.
Qed.

Lemma elems_all_hashable {E : Type} (expr : json * StructType -> E) l rs :
  Forall2 (expr_elem_outcome expr) l rs ->
  Forall (fun x => py_hash_key x <> None) l ->
  exists l0, Forall2 (fun x x0 => py_hash_key x0 = py_hash_key x) l l0 /\
    rs = map Ok (map (fun x0 => expr (x0, TExpression)) l0).
Proof.
  induction 1 as [|x r l rs [_ Hh] _ IH]; intros Hf; [by exists []|].
  apply Forall_cons in Hf as [Hx Hf].
  destruct (Hh Hx) as (x0 & Hk & ->). destruct (IH Hf) as (l0 & H2 & ->).
  exists (x0 :: l0). split; [by constructor|done].
Qed.

Lemma elems_some_unhashable {E : Type} (expr : json * StructType -> E) l rs :
  Forall2 (expr_elem_outcome expr) l rs ->
  Exists (fun x => py_hash_key x = None) l -> exists e, Err e ∈ rs.
Proof.
  induction 1 as [|x r l rs [Hu _] _ IH]; intros Hex; [by apply Exists_nil in Hex|].
  apply Exists_cons in Hex as [Hx|Hex].
  - rewrite (Hu Hx). eexists. by left.
  - destruct (IH Hex) as [e He]. exists e. by right.
Qed.

Lemma same_key_strings l l0 :
  Forall (fun x => exists s, x = JStr s) l ->
  Forall2 (fun x x0 => py_hash_key x0 = py_hash_key x) l l0 -> l0 = l.
Proof.
  intros Hf H2. induction H2 as [|x x0 l l0 Hk _ IH]; [done|].
  apply Forall_cons in Hf as [[s ->] Hf]. cbn in Hk.
  rewrite (py_hash_key_str x0 s Hk), (IH Hf). done.
Qed.

(** The hook for [Union[str, Template, None]] maps [None] to [None] without
    touching the template cache; a list or a dict raises [TypeError]
    (unhashable) and leaves the cache as it is; any other value is
    structured by the cached template function under the key (value, union
    type): the result is that of the wrapped function on a value equal to it
    in Python (the same string for a string; [True] and [1] share an entry).
    The cache stays consistent and within 1024 entries. *)
Theorem opt_template_hook_spec {T : Type} (tmpl : json * StructType -> T)
    (c : list ((json * StructType) * T)) (v : json) :
  pcache_sound tmpl c -> List.length c <= lru_maxsize ->
  let '(r, c') := opt_template_hook tmpl c v in
  pcache_sound tmpl c' /\ List.length c' <= lru_maxsize /\
  (v = JNull -> r = Ok None /\ c' = c) /\
  (py_hash_key v = None ->
     r = Err (TypeError ("unhashable type: '" +:+ py_type_name v +:+ "'")) /\ c' = c) /\
  (v <> JNull -> py_hash_key v <> None ->
     exists v0, py_hash_key v0 = py_hash_key v /\
       r = Ok (Some (tmpl (v0, TOptTemplate)))) /\
  (forall s, v = JStr s -> r = Ok (Some (tmpl (v, TOptTemplate)))).
Proof.
  intros Hs Hb. unfold opt_template_hook.
  destruct v as [|b|z|s|l|kvs].
  { split; [done|]. split; [done|]. split; [done|]. split; [discriminate|].
    split; [by intros []|]. discriminate. }
  all: match goal with |- context [cached_structure _ _ ?w _] =>
      pose proof (cached_structure_spec tmpl c w TOptTemplate Hs Hb) as Hc;
      destruct (cached_structure tmpl c w TOptTemplate) as [r c'] end;
    destruct Hc as (Hs' & Hb' & Hu & Hh);
    split; [done|]; split; [done|]; split; [discriminate|];
    (split; [intros Hn; destruct (Hu Hn) as [-> ->]; split; reflexivity|]);
    (split; [intros _ Hn; destruct (Hh Hn) as (v0 & Hk & ->); by exists v0|]);
    intros s0 Hs0; try discriminate Hs0.
  injection Hs0 as <-. destruct (Hh ltac:(discriminate)) as (v0 & Hk & ->).
  cbn in Hk. by rewrite (py_hash_key_str v0 s Hk).
Qed.

Lemma opt_template_hook_spec_witness :
  pcache_sound (fun kt : json * StructType => py_repr kt.1) [] /\
  List.length (@nil ((json * StructType) * string)) <= lru_maxsize /\
  (opt_template_hook (fun kt : json * StructType => py_repr kt.1) []
     (JStr "Hi {{ name }}")).1 = Ok (Some "'Hi {{ name }}'") /\
  (opt_template_hook (fun kt : json * StructType => py_repr kt.1) []
     (JArr [])).1 = Err (TypeError "unhashable type: 'list'").
Proof.
  assert (Hs : pcache_sound (fun kt : json * StructType => py_repr kt.1) [])
    by (intros k v Hin; by apply elem_of_nil in Hin).
  assert (Hb : List.length (@nil ((json * StructType) * string)) <= lru_maxsize)
    by (cbn; lia).
  split; [exact Hs|]. split; [exact Hb|]. split.
  - pose proof (opt_template_hook_spec (fun kt : json * StructType => py_repr kt.1) []
      (JStr "Hi {{ name }}") Hs Hb) as H.
    destruct (opt_template_hook _ _ _) as [r c'].
    destruct H as (_ & _ & _ & _ & _ & H). exact (H _ eq_refl).
  - pose proof (opt_template_hook_spec (fun kt : json * StructType => py_repr kt.1) []
      (JArr []) Hs Hb) as H.
    destruct (opt_template_hook _ _ _) as [r c'].
    destruct H as (_ & _ & _ & H & _). exact (proj1 (H eq_refl)).
Defined.

(** [True] finds the entry cached for [1]: [True == 1] and both hash
    alike. *)
Example opt_template_hook_true_hits_one :
  opt_template_hook (fun kt : json * StructType => py_repr kt.1)
    [((JInt 1, TOptTemplate), "1")] (JBool true) =
  (Ok (Some "1"), [((JInt 1, TOptTemplate), "1")]).
Proof. reflexivity. Qed.

(** The hook for [Union[Expression, Sequence[Expression]]] structures a list
    element by element through the cached expression function: when every
    element is hashable the result is the list of the wrapped function's
    results on values equal to the elements in Python (the elements
    themselves when they are strings); when some element is a list or a dict
    the hook raises an [IterableValidationError] holding the errors. A dict
    raises [TypeError] (unhashable) and leaves the cache as it is; a string
    is structured as one expression. The cache stays consistent and within
    1024 entries. *)
Theorem expr_or_seq_hook_spec {E : Type} (expr : json * StructType -> E)
    (c : list ((json * StructType) * E)) (v : json) :
  pcache_sound expr c -> List.length c <= lru_maxsize ->
  let '(r, c') := expr_or_seq_hook expr c v in
  pcache_sound expr c' /\ List.length c' <= lru_maxsize /\
  (forall l, v = JArr l -> Forall (fun x => py_hash_key x <> None) l ->
     exists l0, Forall2 (fun x x0 => py_hash_key x0 = py_hash_key x) l l0 /\
       r = Ok (ExprSeq (map (fun x0 => expr (x0, TExpression)) l0))) /\
  (forall l, v = JArr l -> Forall (fun x => exists s, x = JStr s) l ->
     r = Ok (ExprSeq (map (fun x => expr (x, TExpression)) l))) /\
  (forall l, v = JArr l -> Exists (fun x => py_hash_key x = None) l ->
     exists es, es <> [] /\
       r = Err (IterableValidationError
                  "While structuring collections.abc.Sequence[oes.utils.template.Expression]"
                  es)) /\
  (forall kvs, v = JObj kvs -> r = Err (TypeError "unhashable type: 'dict'") /\ c' = c) /\
  (forall s, v = JStr s -> r = Ok (ExprOne (expr (v, TExpression)))).
Proof.
  intros Hs Hb. unfold expr_or_seq_hook.
  destruct v as [|b|z|s|l|kvs].
  5: {
    pose proof (structure_expr_elems_spec expr c l Hs Hb) as He.
    destruct (structure_expr_elems expr c l) as [rs c'].
    destruct He as (Hs' & Hb' & Hall).
    destruct (split_results rs) as [xs es] eqn:Hsr.
    assert (Hok : Forall (fun x => py_hash_key x <> None) l ->
      exists l0, Forall2 (fun x x0 => py_hash_key x0 = py_hash_key x) l l0 /\
        xs = map (fun x0 => expr (x0, TExpression)) l0 /\ es = []).
    { intros Hf. destruct (elems_all_hashable expr l rs Hall Hf) as (l0 & H2 & ->).
      rewrite split_results_ok in Hsr. injection Hsr as <- <-. by exists l0. }
    assert (Hstr : Forall (fun x => exists s, x = JStr s) l ->
      Forall (fun x => py_hash_key x <> None) l).
    { intros Hf. eapply Forall_impl; [exact Hf|]. intros x [s ->]. discriminate. }
    assert (Hbad : Exists (fun x => py_hash_key x = None) l -> es <> []).
    { intros Hex. destruct (elems_some_unhashable expr l rs Hall Hex) as [e He].
      pose proof (split_results_err rs e He) as Hne. by rewrite Hsr in Hne. }
    destruct es as [|e1 es]; cbv beta iota.
    - split; [done|]. split; [done|]. split; [|split; [|split; [|split]]].
      + intros l1 [= <-] Hf. destruct (Hok Hf) as (l0 & H2 & -> & _). by exists l0.
      + intros l1 [= <-] Hf. destruct (Hok (Hstr Hf)) as (l0 & H2 & -> & _).
        by rewrite (same_key_strings l l0 Hf H2).
      + intros l1 [= <-] Hex. by destruct (Hbad Hex).
      + discriminate.
      + discriminate.
    - split; [done|]. split; [done|]. split; [|split; [|split; [|split]]].
      + intros l1 [= <-] Hf. by destruct (Hok Hf) as (l0 & H2 & _ & ?).
      + intros l1 [= <-] Hf. by destruct (Hok (Hstr Hf)) as (l0 & H2 & _ & ?).
      + intros l1 [= <-] Hex. by exists (e1 :: es).
      + discriminate.
      + discriminate. }
  all: match goal with |- context [cached_structure _ _ ?w _] =>
      pose proof (cached_structure_spec expr c w TExpression Hs Hb) as Hc;
      destruct (cached_structure expr c w TExpression) as [r c'] end;
    destruct Hc as (Hs' & Hb' & Hu & Hh);
    split; [done|]; split; [done|];
    split; [discriminate|]; split; [discriminate|]; split; [discriminate|].
  - split; [discriminate|]. discriminate.
  - split; [discriminate|]. discriminate.
  - split; [discriminate|]. discriminate.
  - split; [discriminate|].
    intros s0 [= <-]. destruct (Hh ltac:(discriminate)) as (v0 & Hk & ->).
    cbn in Hk. by rewrite (py_hash_key_str v0 s Hk).
  - split; [|discriminate].
    intros kvs0 _. destruct (Hu eq_refl) as [-> ->]. split; reflexivity.
Qed.

Lemma expr_or_seq_hook_spec_witness :
  pcache_sound (fun kt : json * StructType => py_repr kt.1) [] /\
  List.length (@nil ((json * StructType) * string)) <= lru_maxsize /\
  (expr_or_seq_hook (fun kt : json * StructType => py_repr kt.1) []
     (JArr [JStr "a"; JStr "b"; JStr "a"])).1 = Ok (ExprSeq ["'a'"; "'b'"; "'a'"]).
Proof.
  assert (Hs : pcache_sound (fun kt : json * StructType => py_repr kt.1) [])
    by (intros k v Hin; by apply elem_of_nil in Hin).
  assert (Hb : List.length (@nil ((json * StructType) * string)) <= lru_maxsize)
    by (cbn; lia).
  split; [exact Hs|]. split; [exact Hb|].
  pose proof (expr_or_seq_hook_spec (fun kt : json * StructType => py_repr kt.1) []
    (JArr [JStr "a"; JStr "b"; JStr "a"]) Hs Hb) as H.
  destruct (expr_or_seq_hook _ _ _) as [r c'].
  destruct H as (_ & _ & _ & H & _).
  apply (H _ eq_refl). repeat constructor; eexists; reflexivity.
Defined.
